(** * One-element matrix constructors of [qutip.core.data.make]

    A shallow embedding of [src/qutip/core/data/make.py].  The Python code
    allocates numpy buffers, writes into them through views and wraps them
    into the data-layer classes, raising [OutOfBoundsError] on a bad
    position.  It is embedded in a state-and-exception monad over a store of
    buffers, so that allocation, mutation through a view and the exception
    are all visible in the statements. *)

From stdpp Require Import base list strings pretty.
From Stdlib Require Import ZArith PrimFloat Ascii.

Open Scope Z_scope.

(** ** Scalars *)

(** A Python [complex]: two binary64 floats. *)
Record complex := Complex { real : float; imag : float }.

Definition czero : complex := Complex 0%float 0%float.

Definition cadd (a b : complex) : complex :=
  Complex (real a + real b)%float (imag a + imag b)%float.

Definition cone : complex := Complex 1%float 0%float.

(** The default [value=1.0], converted by [dtype=complex]. *)
Definition default_value : complex := cone.

(** Sum of the stored entries denoting one matrix cell: no entry is [0],
    one entry is that entry, more are added left to right. *)
Definition csum (xs : list complex) : complex :=
  match xs with
  | [] => czero
  | x :: xs' => fold_left cadd xs' x
  end.

(** ** Store *)

(** A location is an index of the store. *)
Abbreviation loc := nat (only parsing).

(** Two typed memories, one per dtype in use ([complex128] and the integer
    index type).  Python integers are unbounded and no arithmetic is done on
    stored indices, so index cells hold [Z].  [junk_c] and [junk_i] give what
    an uninitialised cell of a buffer at a location holds. *)
Record heap := Heap {
  cmem : list (list complex);
  imem : list (list Z);
  junk_c : loc → nat → complex;
  junk_i : loc → nat → Z
}.

(** The storage representations, the keys of the dispatch tables (the
    classes [COO], [CSR], [Dense] and [Dia] used as tags). *)
Inductive Representation := RCOO | RCSR | RDense | RDia.

#[global] Instance Representation_eq_dec : EqDecision Representation.
Proof. solve_decision. Defined.

Inductive exn :=
| OutOfBoundsError (msg : string)
| ValueError (msg : string)
| IndexError
| TypeError (msg : string)
| UnsupportedRepresentation (operation : string) (r : Representation)
| DanglingReference.

Inductive outcome (A : Type) :=
| Ok (a : A)
| Raise (e : exn).
Arguments Ok {A} a.
Arguments Raise {A} e.

Definition M (A : Type) : Type := heap → outcome A * heap.

#[global] Instance M_ret : MRet M := λ A a h, (Ok a, h).

#[global] Instance M_bind : MBind M := λ A B f m h,
  match m h with
  | (Ok a, h') => f a h'
  | (Raise e, h') => (Raise e, h')
  end.

#[global] Instance M_fmap : FMap M := λ A B f m h,
  match m h with
  | (Ok a, h') => (Ok (f a), h')
  | (Raise e, h') => (Raise e, h')
  end.

Definition raise {A} (e : exn) : M A := λ h, (Raise e, h).

Definition alloc_c (xs : list complex) : M loc := λ h,
  (Ok (length (cmem h)),
   Heap (cmem h ++ [xs]) (imem h) (junk_c h) (junk_i h)).

Definition alloc_i (xs : list Z) : M loc := λ h,
  (Ok (length (imem h)),
   Heap (cmem h) (imem h ++ [xs]) (junk_c h) (junk_i h)).

(** Allocation without initialisation: the cells hold the junk of the new
    location. *)
Definition alloc_uninit_c (n : nat) : M loc := λ h,
  alloc_c (junk_c h (length (cmem h)) <$> seq 0 n) h.

Definition alloc_uninit_i (n : nat) : M loc := λ h,
  alloc_i (junk_i h (length (imem h)) <$> seq 0 n) h.

Definition load_c (l : loc) : M (list complex) := λ h,
  match cmem h !! l with
  | Some xs => (Ok xs, h)
  | None => (Raise DanglingReference, h)
  end.

Definition load_i (l : loc) : M (list Z) := λ h,
  match imem h !! l with
  | Some xs => (Ok xs, h)
  | None => (Raise DanglingReference, h)
  end.

Definition store_c (l : loc) (xs : list complex) : M unit := λ h,
  (Ok (), Heap (<[l:=xs]> (cmem h)) (imem h) (junk_c h) (junk_i h)).

Definition store_i (l : loc) (xs : list Z) : M unit := λ h,
  (Ok (), Heap (cmem h) (<[l:=xs]> (imem h)) (junk_c h) (junk_i h)).

(** ** numpy arrays *)

(** An array object is a view: a buffer, a shape and, for the complex
    arrays, the order of the cells: row-major (C order) unless
    [ndc_fortran], then column-major (Fortran order).  The index arrays are
    1-d and in C order. *)
Record ndarray_complex := NdArrayC {
  ndc_base : loc;
  ndc_shape : list nat;
  ndc_fortran : bool
}.

(** A complex array in C order, as [np.array] and [np.zeros] make them. *)
Abbreviation NdC base shape := (NdArrayC base shape false).

Record ndarray_int := NdI { ndi_base : loc; ndi_shape : list nat }.

(** An integer index into an axis of length [n]; negative ones count from
    the end, anything else is out of range. *)
Definition py_index (n : nat) (i : Z) : option nat :=
  if decide (0 ≤ i < Z.of_nat n) then Some (Z.to_nat i)
  else if decide (- Z.of_nat n ≤ i < 0) then Some (Z.to_nat (i + Z.of_nat n))
  else None.

(** Linear offset of a full integer index in C order. *)
Fixpoint ravel (shape : list nat) (idx : list Z) (acc : nat) : option nat :=
  match shape, idx with
  | [], [] => Some acc
  | n :: shape', i :: idx' =>
      k ← py_index n i; ravel shape' idx' (acc * n + k)%nat
  | _, _ => None
  end.

(** [np.array(xs, dtype=complex)] on a Python list: a fresh 1-d array. *)
Definition np_array_complex (xs : list complex) : M ndarray_complex :=
  l ← alloc_c xs; mret (NdC l [length xs]).

(** [np.array(xs)] on a Python list of integers. *)
Definition np_array_int (xs : list Z) : M ndarray_int :=
  l ← alloc_i xs; mret (NdI l [length xs]).

(** [np.zeros(shape, dtype=complex)]. *)
Definition np_zeros_complex (shape : list Z) : M ndarray_complex :=
  if bool_decide (Forall (λ n, 0 ≤ n) shape) then
    let shape' := Z.to_nat <$> shape in
    l ← alloc_c (replicate (foldr Nat.mul 1%nat shape') czero);
    mret (NdC l shape')
  else raise (ValueError "negative dimensions are not allowed").

(** A copy of [a] that keeps its order. *)
Definition ndc_copy (a : ndarray_complex) : M ndarray_complex :=
  xs ← load_c (ndc_base a); l ← alloc_c xs;
  mret (NdArrayC l (ndc_shape a) (ndc_fortran a)).

Definition ndi_copy (a : ndarray_int) : M ndarray_int :=
  xs ← load_i (ndi_base a); l ← alloc_i xs; mret (NdI l (ndi_shape a)).

(** Linear offset of a full integer index in the order of the array: in
    Fortran order the first index runs fastest, which is the C order of the
    reversed shape and index. *)
Definition ndc_offset (a : ndarray_complex) (idx : list Z) : option nat :=
  if ndc_fortran a then ravel (reverse (ndc_shape a)) (reverse idx) 0
  else ravel (ndc_shape a) idx 0.

(** [a[idx] = v] with a full integer index. *)
Definition ndc_setitem (a : ndarray_complex) (idx : list Z) (v : complex)
  : M unit :=
  match ndc_offset a idx with
  | Some k => xs ← load_c (ndc_base a); store_c (ndc_base a) (<[k:=v]> xs)
  | None => raise IndexError
  end.

Definition ndi_setitem (a : ndarray_int) (idx : list Z) (v : Z) : M unit :=
  match ravel (ndi_shape a) idx 0 with
  | Some k => xs ← load_i (ndi_base a); store_i (ndi_base a) (<[k:=v]> xs)
  | None => raise IndexError
  end.

(** A slice bound of a 1-d slice with step 1, clipped as Python does. *)
Definition slice_bound (n : nat) (default : nat) (b : option Z) : nat :=
  match b with
  | None => default
  | Some v =>
      if decide (v < 0) then Z.to_nat (Z.max (v + Z.of_nat n) 0)
      else Z.to_nat (Z.min v (Z.of_nat n))
  end.

Definition slice_fill {A} (n : nat) (xs : list A) (start stop : option Z)
  (v : A) : list A :=
  let lo := slice_bound n 0 start in
  let hi := slice_bound n n stop in
  if decide (lo < hi)%nat
  then take lo xs ++ replicate (hi - lo) v ++ drop hi xs
  else xs.

(** [a[start:stop] = v] on a 1-d integer array, [v] broadcast. *)
Definition ndi_setslice (a : ndarray_int) (start stop : option Z) (v : Z)
  : M unit :=
  match ndi_shape a with
  | [n] =>
      xs ← load_i (ndi_base a);
      store_i (ndi_base a) (slice_fill n xs start stop v)
  | _ => raise IndexError
  end.

(** ** Data-layer classes *)

(** The classes imported from the package ([COO], [CSR], [Dense], [Dia]) and
    the modules [csr] and [dense] are not part of [make.py]. *)

(** Modelled from the spec: the class [COO] is missing; a coordinate matrix
    is three parallel sequences [values], [rows], [cols] of equal length. *)
Record COO := MkCOO {
  coo_shape : Z * Z;
  coo_data : ndarray_complex;
  coo_row : ndarray_int;
  coo_col : ndarray_int
}.

(** Modelled from the spec: the constructor of [COO] is missing; with
    [copy=False] the object keeps the arrays it is given, with [copy=True]
    it keeps copies of them. *)
Definition COO_new (arg : ndarray_complex * (ndarray_int * ndarray_int))
  (copy : bool) (shape : Z * Z) : M COO :=
  let '(data, (row, col)) := arg in
  if copy then
    data' ← ndc_copy data; row' ← ndi_copy row; col' ← ndi_copy col;
    mret (MkCOO shape data' row' col')
  else mret (MkCOO shape data row col).

(** Modelled from the spec: the class [CSR] is missing; a values buffer and
    a column-index buffer of [N] slots and a row-pointer buffer [p[0..R]]. *)
Record CSR := MkCSR {
  csr_shape : Z * Z;
  csr_size : nat;
  csr_data : loc;
  csr_col_index : loc;
  csr_row_index : loc
}.

(** Modelled from the spec: [csr.empty] is missing; it allocates a
    row-pointer array of length [R+1] and [size] reserved storage slots, all
    uninitialised. *)
Definition csr_empty (rows cols : Z) (size : Z) : M CSR :=
  d ← alloc_uninit_c (Z.to_nat size);
  c ← alloc_uninit_i (Z.to_nat size);
  p ← alloc_uninit_i (Z.to_nat (rows + 1));
  mret (MkCSR (rows, cols) (Z.to_nat size) d c p).

(** The scipy matrix returned by [as_scipy]: views of the three buffers. *)
Record scipy_csr := MkSci {
  sci_data : ndarray_complex;
  sci_indices : ndarray_int;
  sci_indptr : ndarray_int
}.

(** Modelled from the spec: [CSR.as_scipy] is missing; the views share the
    buffers of the matrix.  With [full=True] they span the reserved slots,
    otherwise the [p[R]] stored entries. *)
Definition as_scipy (m : CSR) (full : bool) : M scipy_csr :=
  let rows := Z.to_nat (csr_shape m).1 in
  n ← (if full then mret (csr_size m)
       else p ← load_i (csr_row_index m);
            mret (Z.to_nat (default 0 (p !! rows))));
  mret (MkSci (NdC (csr_data m) [n]) (NdI (csr_col_index m) [n])
              (NdI (csr_row_index m) [S rows])).

(** Modelled from the spec: the class [Dense] is missing; a contiguous
    buffer of [R*C] scalars.  The spec says row-major; the class keeps the
    order of its buffer in a flag, [dense_fortran], set when the buffer is
    column-major. *)
Record Dense := MkDense {
  dense_shape : Z * Z;
  dense_fortran : bool;
  dense_data : loc
}.

(** Modelled from the spec: [dense.zeros] is missing; it allocates an
    [R]x[C] buffer of zeros.  Its third argument is the order flag of the
    class, taken by truth value: anything but [0] asks for a column-major
    buffer. *)
Definition dense_zeros (rows cols : Z) (fortran : Z) : M Dense :=
  l ← alloc_c (replicate (Z.to_nat rows * Z.to_nat cols) czero);
  mret (MkDense (rows, cols) (bool_decide (fortran ≠ 0)) l).

(** Modelled from the spec: [Dense.as_ndarray] is missing; a 2-d view of the
    buffer in the order of the matrix: cell [(i, j)] at linear offset
    [i*C + j] when row-major, [j*R + i] when column-major. *)
Definition as_ndarray (d : Dense) : ndarray_complex :=
  NdArrayC (dense_data d)
    [Z.to_nat (dense_shape d).1; Z.to_nat (dense_shape d).2]
    (dense_fortran d).

(** Modelled from the spec: the class [Dia] is missing; a 2-d buffer of
    shape [(K, C)] and [K] offsets. *)
Record Dia := MkDia {
  dia_shape : Z * Z;
  dia_data : ndarray_complex;
  dia_offsets : ndarray_int
}.

(** Modelled from the spec: the constructor of [Dia] is missing; [copy] as
    for [COO]. *)
Definition Dia_new (arg : ndarray_complex * ndarray_int) (copy : bool)
  (shape : Z * Z) : M Dia :=
  let '(data, offsets) := arg in
  if copy then
    data' ← ndc_copy data; offsets' ← ndi_copy offsets;
    mret (MkDia shape data' offsets')
  else mret (MkDia shape data offsets).

(** ** [make.py] *)

(** A pair of integers as an f-string prints it. *)
Definition repr_tuple (p : Z * Z) : string :=
  "(" +:+ pretty p.1 +:+ ", " +:+ pretty p.2 +:+ ")".

(** [OutOfBoundsError.__init__]: the exception keeps the message only. *)
Definition OutOfBoundsError_init (shape position : Z * Z) : exn :=
  OutOfBoundsError
    ("Position of the elements out of bound: " +:+ repr_tuple position
       +:+ " in " +:+ repr_tuple shape).

Definition one_element_coo (shape position : Z * Z) (value : complex)
  : M COO :=
  if negb (bool_decide (0 ≤ position.1 < shape.1 ∧ 0 ≤ position.2 < shape.2))
  then raise (OutOfBoundsError_init shape position)
  else
    data ← np_array_complex [value];
    row ← np_array_int [position.1];
    col ← np_array_int [position.2];
    COO_new (data, (row, col)) false shape.

Definition one_element_csr (shape position : Z * Z) (value : complex)
  : M CSR :=
  if negb (bool_decide (0 ≤ position.1 < shape.1 ∧ 0 ≤ position.2 < shape.2))
  then raise (OutOfBoundsError_init shape position)
  else
    data ← csr_empty shape.1 shape.2 1;
    sci ← as_scipy data true;
    ndc_setitem (sci_data sci) [0] value;;
    ndi_setitem (sci_indices sci) [0] position.2;;
    ndi_setslice (sci_indptr sci) None (Some (position.1 + 1)) 0;;
    ndi_setslice (sci_indptr sci) (Some (position.1 + 1)) None 1;;
    mret data.

Definition one_element_dense (shape position : Z * Z) (value : complex)
  : M Dense :=
  if negb (bool_decide (0 ≤ position.1 < shape.1 ∧ 0 ≤ position.2 < shape.2))
  then raise (OutOfBoundsError_init shape position)
  else
    data ← dense_zeros shape.1 shape.2 1;
    let nda := as_ndarray data in
    ndc_setitem nda [position.1; position.2] value;;
    mret data.

Definition one_element_dia (shape position : Z * Z) (value : complex)
  : M Dia :=
  if negb (bool_decide (0 ≤ position.1 < shape.1 ∧ 0 ≤ position.2 < shape.2))
  then raise (OutOfBoundsError_init shape position)
  else
    data ← np_zeros_complex [1; shape.2];
    ndc_setitem data [0; position.2] value;;
    offsets ← np_array_int [position.2 - position.1];
    Dia_new (data, offsets) false shape.

(** ** Dispatch *)

(** What a dispatched constructor returns: one of the four classes. *)
Inductive Data :=
| DCOO (m : COO)
| DCSR (m : CSR)
| DDense (m : Dense)
| DDia (m : Dia).

(** Modelled from the spec: the class [Dispatcher] ([.dispatch]) is missing;
    a registry from a representation to its constructor, in the order of
    registration.  The first argument of [_Dispatcher] gives the signature
    and the documentation only ([_diag_signature] has no body and is deleted
    after use); it is not kept. *)
Record Dispatcher (Args Res : Type) := MkDispatcher {
  disp_name : string;
  disp_specialisations : list (Representation * (Args → M Res))
}.
Arguments MkDispatcher {Args Res} _ _.
Arguments disp_name {Args Res} _.
Arguments disp_specialisations {Args Res} _.

Definition Dispatcher_new {Args Res} (name : string) : Dispatcher Args Res :=
  MkDispatcher name [].

Definition add_specialisations {Args Res} (d : Dispatcher Args Res)
  (specs : list (Representation * (Args → M Res))) : Dispatcher Args Res :=
  MkDispatcher (disp_name d) (disp_specialisations d ++ specs).

Fixpoint find_specialisation {F} (r : Representation)
  (specs : list (Representation * F)) : option F :=
  match specs with
  | [] => None
  | (r', f) :: specs' =>
      if decide (r = r') then Some f else find_specialisation r specs'
  end.

(** Modelled from the spec: [Dispatcher.__call__] is missing; it looks the
    requested representation up and fails when no constructor is registered
    for it.  With no representation given every specialisation fits a call
    without dispatched inputs, and the first one registered is called. *)
Definition dispatch {Args Res} (d : Dispatcher Args Res) (args : Args)
  (representation : option Representation) : M Res :=
  match representation with
  | Some r =>
      match find_specialisation r (disp_specialisations d) with
      | Some f => f args
      | None => raise (UnsupportedRepresentation (disp_name d) r)
      end
  | None =>
      match disp_specialisations d with
      | (_, f) :: _ => f args
      | [] => raise (TypeError "no specialisation is registered")
      end
  end.

(** [one_element = _Dispatcher(one_element_dense, ...)] with its four
    specialisations, in the order of the source. *)
Definition one_element : Dispatcher ((Z * Z) * (Z * Z) * complex) Data :=
  add_specialisations (Dispatcher_new "one_element")
    [ (RCOO, λ '(shape, position, value),
         DCOO <$> one_element_coo shape position value);
      (RCSR, λ '(shape, position, value),
         DCSR <$> one_element_csr shape position value);
      (RDense, λ '(shape, position, value),
         DDense <$> one_element_dense shape position value);
      (RDia, λ '(shape, position, value),
         DDia <$> one_element_dia shape position value) ].

(** ** The matrix a representation denotes *)

(** Modelled from the spec: reading a [Dense]; cell [(i, j)] of the buffer,
    in the order of the matrix. *)
Definition Dense_read (h : heap) (m : Dense) (i j : Z) : option complex :=
  guard (0 ≤ i < (dense_shape m).1 ∧ 0 ≤ j < (dense_shape m).2);;
  xs ← cmem h !! dense_data m;
  xs !! Z.to_nat (if dense_fortran m then j * (dense_shape m).1 + i
                  else i * (dense_shape m).2 + j).

Definition keep_if {A} (b : bool) (x : A) : option A :=
  if b then Some x else None.

(** Modelled from the spec: reading a [COO]; the stored triplets at
    [(i, j)], summed. *)
Definition COO_read (h : heap) (m : COO) (i j : Z) : option complex :=
  guard (0 ≤ i < (coo_shape m).1 ∧ 0 ≤ j < (coo_shape m).2);;
  vs ← cmem h !! ndc_base (coo_data m);
  rs ← imem h !! ndi_base (coo_row m);
  cs ← imem h !! ndi_base (coo_col m);
  Some (csum (omap (λ '(v, (r, c)),
                      keep_if (bool_decide (r = i ∧ c = j)) v)
                   (zip vs (zip rs cs)))).

(** Modelled from the spec: reading a [CSR]; row [i] is the slice
    [p[i]:p[i+1]] of the values and of the column indices. *)
Definition CSR_read (h : heap) (m : CSR) (i j : Z) : option complex :=
  guard (0 ≤ i < (csr_shape m).1 ∧ 0 ≤ j < (csr_shape m).2);;
  vs ← cmem h !! csr_data m;
  cs ← imem h !! csr_col_index m;
  p ← imem h !! csr_row_index m;
  lo ← p !! Z.to_nat i;
  hi ← p !! Z.to_nat (i + 1);
  let slice {A} (xs : list A) :=
    take (Z.to_nat hi - Z.to_nat lo) (drop (Z.to_nat lo) xs) in
  Some (csum (omap (λ '(v, c), keep_if (bool_decide (c = j)) v)
                   (zip (slice vs) (slice cs)))).

(** Modelled from the spec: reading a [Dia]; the cell [(i, j)] of the
    diagonal [k] of offset [j - i] is [d[k][j]]. *)
Definition Dia_read (h : heap) (m : Dia) (i j : Z) : option complex :=
  guard (0 ≤ i < (dia_shape m).1 ∧ 0 ≤ j < (dia_shape m).2);;
  d ← cmem h !! ndc_base (dia_data m);
  offs ← imem h !! ndi_base (dia_offsets m);
  let width := default 0%nat (ndc_shape (dia_data m) !! 1%nat) in
  Some (csum (omap (λ '(k, o), if decide (o = j - i)
                               then d !! (k * width + Z.to_nat j)%nat
                               else None)
                   (zip (seq 0 (length offs)) offs))).

(** A store with nothing allocated yet, whose free memory holds junk that is
    neither zero nor a valid index; the examples run on it. *)
Definition sample_heap : heap :=
  Heap [] [] (λ _ _, Complex 7%float 7%float) (λ _ _, -99).

(** ** Stores and results compared *)

(** Every buffer of [h] is still in [h'], with its contents. *)
Definition heap_extends (h h' : heap) : Prop :=
  (∀ l xs, cmem h !! l = Some xs → cmem h' !! l = Some xs) ∧
  (∀ l xs, imem h !! l = Some xs → imem h' !! l = Some xs).

(** The class of a dispatched result. *)
Definition Data_class (d : Data) : Representation :=
  match d with
  | DCOO _ => RCOO
  | DCSR _ => RCSR
  | DDense _ => RDense
  | DDia _ => RDia
  end.

(** The matrix a dispatched result denotes, read with the function of its
    class. *)
Definition Data_read (h : heap) (d : Data) (i j : Z) : option complex :=
  match d with
  | DCOO m => COO_read h m i j
  | DCSR m => CSR_read h m i j
  | DDense m => Dense_read h m i j
  | DDia m => Dia_read h m i j
  end.

(** ** Characters of a message *)

(** [c] does not occur in [s]. *)
Fixpoint free_of (c : ascii) (s : string) : Prop :=
  match s with
  | EmptyString => True
  | String c' s' => c' ≠ c ∧ free_of c s'
  end.

(** [c] is one of the ten digits [pretty] prints. *)
Definition is_digit (c : ascii) : Prop := ∃ x : N, c = pretty_N_char x.

(** * Properties *)

(** ** The store *)

Section store_lemmas.
Context {A : Type}.
Implicit Types (l : list A) (x y : A).

Lemma lookup_snoc l x : (l ++ [x]) !! length l = Some x.
Proof. by rewrite list_lookup_middle. Qed.

Lemma insert_snoc l x y : <[length l := y]> (l ++ [x]) = l ++ [y].
Proof.
  rewrite insert_app_r_alt by lia. by rewrite Nat.sub_diag.
Qed.

Lemma lookup_snoc_old l x i z : l !! i = Some z → (l ++ [x]) !! i = Some z.
Proof. intros H. by rewrite lookup_app_l by (by eapply lookup_lt_Some). Qed.

Lemma insert_snoc_app l x y (k : list A) :
  <[length l := y]> ((l ++ [x]) ++ k) = (l ++ [y]) ++ k.
Proof.
  rewrite insert_app_l by (rewrite length_app; simpl; lia).
  by rewrite insert_snoc.
Qed.

Lemma lookup_fresh l : l !! length l = None.
Proof. by apply lookup_ge_None. Qed.

End store_lemmas.

(** ** Slices *)

Lemma slice_fill_prefix {A} (xs : list A) (k : Z) (v : A) :
  0 < k ≤ Z.of_nat (length xs) →
  slice_fill (length xs) xs None (Some k) v
  = replicate (Z.to_nat k) v ++ drop (Z.to_nat k) xs.
Proof.
  intros Hk. unfold slice_fill, slice_bound. cbv zeta.
  destruct (decide (k < 0)) as [?|_]; [lia|].
  rewrite Z.min_l by lia.
  rewrite decide_True by lia.
  by rewrite Nat.sub_0_r.
Qed.

Lemma slice_fill_suffix {A} (xs : list A) (k : Z) (v : A) :
  0 ≤ k < Z.of_nat (length xs) →
  slice_fill (length xs) xs (Some k) None v
  = take (Z.to_nat k) xs ++ replicate (length xs - Z.to_nat k) v.
Proof.
  intros Hk. unfold slice_fill, slice_bound. cbv zeta.
  destruct (decide (k < 0)) as [?|_]; [lia|].
  rewrite Z.min_l by lia.
  rewrite decide_True by lia.
  by rewrite drop_all, app_nil_r.
Qed.

(** The two fills of [one_element_csr], one after the other: whatever the
    array held, it ends as [row + 1] zeros followed by ones. *)
Lemma row_pointers_fill (xs : list Z) (row : Z) :
  0 ≤ row → row + 1 < Z.of_nat (length xs) →
  slice_fill (length xs)
    (slice_fill (length xs) xs None (Some (row + 1)) 0)
    (Some (row + 1)) None 1
  = replicate (Z.to_nat (row + 1)) 0
      ++ replicate (length xs - Z.to_nat (row + 1)) 1.
Proof.
  intros H0 H1.
  rewrite slice_fill_prefix by lia.
  set (ys := replicate _ 0 ++ drop _ xs).
  assert (Hlen : length ys = length xs).
  { unfold ys. rewrite length_app, length_replicate, length_drop. lia. }
  rewrite <- Hlen at 1. rewrite slice_fill_suffix by lia.
  rewrite Hlen. f_equal.
  unfold ys. rewrite take_app_length'; [done|].
  by rewrite length_replicate.
Qed.

(** ** What each constructor does on a position inside the shape *)

Ltac run :=
  unfold mbind, M_bind, mret, M_ret, fmap, M_fmap, raise; simpl.

Lemma one_element_coo_run (R C row col : Z) (value : complex) (h : heap) :
  0 ≤ row < R → 0 ≤ col < C →
  one_element_coo (R, C) (row, col) value h
  = (Ok (MkCOO (R, C) (NdC (length (cmem h)) [1%nat])
           (NdI (length (imem h)) [1%nat])
           (NdI (S (length (imem h))) [1%nat])),
     Heap (cmem h ++ [[value]]) ((imem h ++ [[row]]) ++ [[col]])
       (junk_c h) (junk_i h)).
Proof.
  intros Hr Hc. unfold one_element_coo.
  rewrite bool_decide_true by (simpl; lia). simpl.
  unfold np_array_complex, np_array_int, COO_new, alloc_c, alloc_i. run.
  rewrite length_app. simpl. by rewrite Nat.add_1_r.
Qed.

(** ** Running the primitives *)

Lemma py_index_in_range (n : nat) (i : Z) :
  0 ≤ i < Z.of_nat n → py_index n i = Some (Z.to_nat i).
Proof. intros H. unfold py_index. by rewrite decide_True. Qed.

Lemma ravel_1d (n : nat) (i : Z) :
  0 ≤ i < Z.of_nat n → ravel [n] [i] 0 = Some (Z.to_nat i).
Proof. intros H. simpl. by rewrite py_index_in_range. Qed.

Lemma ravel_2d (n m : nat) (i j : Z) :
  0 ≤ i < Z.of_nat n → 0 ≤ j < Z.of_nat m →
  ravel [n; m] [i; j] 0 = Some (Z.to_nat i * m + Z.to_nat j)%nat.
Proof.
  intros Hi Hj. simpl. rewrite py_index_in_range by done. simpl.
  by rewrite py_index_in_range.
Qed.

Lemma ravel_2d_fortran (l : loc) (n m : nat) (i j : Z) :
  0 ≤ i < Z.of_nat n → 0 ≤ j < Z.of_nat m →
  ndc_offset (NdArrayC l [n; m] true) [i; j]
  = Some (Z.to_nat j * n + Z.to_nat i)%nat.
Proof. intros Hi Hj. by apply ravel_2d. Qed.

Lemma ndc_setitem_run a idx v h k xs :
  ndc_offset a idx = Some k →
  cmem h !! ndc_base a = Some xs →
  ndc_setitem a idx v h
  = (Ok (), Heap (<[ndc_base a := <[k:=v]> xs]> (cmem h)) (imem h)
              (junk_c h) (junk_i h)).
Proof.
  intros Hk Hxs. unfold ndc_setitem. rewrite Hk.
  unfold mbind, M_bind, load_c, store_c. by rewrite Hxs.
Qed.

Lemma ndi_setitem_run a idx v h k xs :
  ravel (ndi_shape a) idx 0 = Some k →
  imem h !! ndi_base a = Some xs →
  ndi_setitem a idx v h
  = (Ok (), Heap (cmem h) (<[ndi_base a := <[k:=v]> xs]> (imem h))
              (junk_c h) (junk_i h)).
Proof.
  intros Hk Hxs. unfold ndi_setitem. rewrite Hk.
  unfold mbind, M_bind, load_i, store_i. by rewrite Hxs.
Qed.

Lemma ndi_setslice_run a start stop v h n xs :
  ndi_shape a = [n] →
  imem h !! ndi_base a = Some xs →
  ndi_setslice a start stop v h
  = (Ok (), Heap (cmem h)
              (<[ndi_base a := slice_fill n xs start stop v]> (imem h))
              (junk_c h) (junk_i h)).
Proof.
  intros Hn Hxs. unfold ndi_setslice. rewrite Hn.
  unfold mbind, M_bind, load_i, store_i. by rewrite Hxs.
Qed.

Lemma one_element_csr_run (R C row col : Z) (value : complex) (h : heap) :
  0 ≤ row < R → 0 ≤ col < C →
  one_element_csr (R, C) (row, col) value h
  = (Ok (MkCSR (R, C) 1 (length (cmem h)) (length (imem h))
           (S (length (imem h)))),
     Heap (cmem h ++ [[value]])
       ((imem h ++ [[col]])
          ++ [replicate (Z.to_nat (row + 1)) 0
                ++ replicate (Z.to_nat (R + 1) - Z.to_nat (row + 1)) 1])
       (junk_c h) (junk_i h)).
Proof.
  intros Hr Hc. unfold one_element_csr.
  rewrite bool_decide_true by (simpl; lia). simpl.
  unfold csr_empty, alloc_uninit_c, alloc_uninit_i, alloc_c, alloc_i.
  unfold as_scipy. run.
  change (Z.to_nat 1) with 1%nat.
  rewrite !length_app. simpl. rewrite Nat.add_1_r.
  set (p0 := list_fmap nat Z _ _).
  assert (Hp0 : length p0 = Z.to_nat (R + 1)).
  { unfold p0. by rewrite length_fmap, length_seq. }
  erewrite ndc_setitem_run; [| by apply ravel_1d | apply lookup_snoc ].
  simpl. rewrite insert_snoc.
  erewrite ndi_setitem_run; [| by apply ravel_1d | simpl ].
  2:{ apply lookup_snoc_old, lookup_snoc. }
  simpl.
  rewrite insert_snoc_app.
  assert (Hl : S (length (imem h)) = length (imem h ++ [[col]])).
  { rewrite length_app. simpl. lia. }
  assert (Hn : S (Z.to_nat R) = length p0) by lia.
  rewrite Hl, Hn.
  erewrite ndi_setslice_run; [| done | apply lookup_snoc ].
  simpl. rewrite insert_snoc.
  erewrite ndi_setslice_run; [| done | simpl; apply lookup_snoc ].
  simpl. rewrite insert_snoc.
  rewrite row_pointers_fill by lia.
  by rewrite Hp0.
Qed.

Lemma one_element_dense_run (R C row col : Z) (value : complex) (h : heap) :
  0 ≤ row < R → 0 ≤ col < C →
  one_element_dense (R, C) (row, col) value h
  = (Ok (MkDense (R, C) true (length (cmem h))),
     Heap (cmem h ++ [<[(Z.to_nat col * Z.to_nat R + Z.to_nat row)%nat := value]>
                        (replicate (Z.to_nat R * Z.to_nat C) czero)])
       (imem h) (junk_c h) (junk_i h)).
Proof.
  intros Hr Hc. unfold one_element_dense.
  rewrite bool_decide_true by (simpl; lia). simpl.
  unfold dense_zeros, as_ndarray, alloc_c. run.
  erewrite ndc_setitem_run;
    [| apply ravel_2d_fortran; lia | apply lookup_snoc ].
  simpl. by rewrite insert_snoc.
Qed.

Lemma one_element_dia_run (R C row col : Z) (value : complex) (h : heap) :
  0 ≤ row < R → 0 ≤ col < C →
  one_element_dia (R, C) (row, col) value h
  = (Ok (MkDia (R, C) (NdC (length (cmem h)) [1%nat; Z.to_nat C])
           (NdI (length (imem h)) [1%nat])),
     Heap (cmem h ++ [<[Z.to_nat col := value]>
                        (replicate (Z.to_nat C) czero)])
       (imem h ++ [[col - row]]) (junk_c h) (junk_i h)).
Proof.
  intros Hr Hc. unfold one_element_dia.
  rewrite bool_decide_true by (simpl; lia). simpl.
  unfold np_zeros_complex.
  rewrite bool_decide_true by (repeat constructor; lia).
  unfold np_array_int, Dia_new, alloc_c, alloc_i. run.
  change (Pos.to_nat 1) with 1%nat.
  erewrite ndc_setitem_run;
    [| apply (ravel_2d 1 (Z.to_nat C) 0 col); lia | apply lookup_snoc ].
  simpl. rewrite insert_snoc.
  by replace (Z.to_nat C * 1 + 0)%nat with (Z.to_nat C) by lia.
Qed.

(** ** What each constructor does on a position outside the shape *)

Section out_of_bounds.
Variables (R C row col : Z) (value : complex) (h : heap).
Hypothesis Hout : ¬ (0 ≤ row < R ∧ 0 ≤ col < C).

Lemma one_element_coo_raise :
  one_element_coo (R, C) (row, col) value h
  = (Raise (OutOfBoundsError_init (R, C) (row, col)), h).
Proof. unfold one_element_coo. by rewrite bool_decide_false. Qed.

Lemma one_element_csr_raise :
  one_element_csr (R, C) (row, col) value h
  = (Raise (OutOfBoundsError_init (R, C) (row, col)), h).
Proof. unfold one_element_csr. by rewrite bool_decide_false. Qed.

Lemma one_element_dense_raise :
  one_element_dense (R, C) (row, col) value h
  = (Raise (OutOfBoundsError_init (R, C) (row, col)), h).
Proof. unfold one_element_dense. by rewrite bool_decide_false. Qed.

Lemma one_element_dia_raise :
  one_element_dia (R, C) (row, col) value h
  = (Raise (OutOfBoundsError_init (R, C) (row, col)), h).
Proof. unfold one_element_dia. by rewrite bool_decide_false. Qed.

End out_of_bounds.

(** ** The message of [OutOfBoundsError] determines shape and position *)

Lemma pretty_N_char_digit (x : N) : is_digit (pretty_N_char x).
Proof. by exists x. Qed.

Lemma zero_digit : is_digit "0"%char.
Proof. by exists 0%N. Qed.

Lemma free_of_pretty_N_go (c : ascii) (x : N) (s : string) :
  ¬ is_digit c → free_of c s → free_of c (pretty_N_go x s).
Proof.
  intros Hc. revert s.
  induction (N.lt_wf_0 x) as [x _ IH]; intros s Hs.
  destruct (decide (x = 0)%N) as [->|Hx].
  - by rewrite pretty_N_go_0.
  - rewrite pretty_N_go_step by lia. apply IH.
    + apply N.div_lt; lia.
    + split; [|done]. intros Heq. apply Hc. rewrite <- Heq.
      apply pretty_N_char_digit.
Qed.

Lemma free_of_pretty_Z (c : ascii) (z : Z) :
  ¬ is_digit c → c ≠ "-"%char → free_of c (pretty z).
Proof.
  intros Hc Hd.
  assert (HN : ∀ x : N, free_of c (pretty x)).
  { intros x. unfold pretty, pretty_N. case_decide.
    - simpl. split; [|done]. intros Heq. apply Hc. rewrite <- Heq.
      apply zero_digit.
    - by apply free_of_pretty_N_go. }
  destruct z as [|p|p]; unfold pretty, pretty_Z.
  - simpl. split; [|done]. intros Heq. apply Hc. rewrite <- Heq.
    apply zero_digit.
  - apply (HN (N.pos p)).
  - simpl. split; [congruence|]. apply (HN (N.pos p)).
Qed.

(** Two strings cut at the first occurrence of a delimiter. *)
Lemma app_delimiter_inj (c : ascii) (a a' r r' : string) :
  free_of c a → free_of c a' →
  a +:+ String c r = a' +:+ String c r' → a = a' ∧ r = r'.
Proof.
  revert a'. induction a as [|x a IH]; intros [|x' a'] Ha Ha' Heq;
    simpl in *.
  - by simplify_eq.
  - destruct Ha'. by simplify_eq.
  - destruct Ha. by simplify_eq.
  - destruct Ha, Ha'. injection Heq as -> Heq.
    destruct (IH a') as [-> ->]; done.
Qed.

Lemma comma_not_digit : ¬ is_digit ","%char.
Proof. intros [x Hx]. unfold pretty_N_char in Hx. by repeat case_match. Qed.

Lemma paren_not_digit : ¬ is_digit ")"%char.
Proof. intros [x Hx]. unfold pretty_N_char in Hx. by repeat case_match. Qed.

Lemma string_app_assoc (a b c : string) :
  (a +:+ b) +:+ c = a +:+ (b +:+ c).
Proof.
  induction a as [|x a IH]; [done|].
  change (String x ((a +:+ b) +:+ c) = String x (a +:+ (b +:+ c))).
  by rewrite IH.
Qed.

Lemma string_app_nil_r (a : string) : a +:+ "" = a.
Proof.
  induction a as [|x a IH]; [done|].
  change (String x (a +:+ "") = String x a). by rewrite IH.
Qed.

Lemma repr_tuple_inj (p q : Z * Z) (r s : string) :
  repr_tuple p +:+ r = repr_tuple q +:+ s → p = q ∧ r = s.
Proof.
  destruct p as [a b], q as [a' b']. unfold repr_tuple.
  rewrite !string_app_assoc. simpl.
  intros Heq. injection Heq as Heq.
  apply app_delimiter_inj in Heq as [Ha Heq];
    [| apply free_of_pretty_Z; [apply comma_not_digit | done] .. ].
  injection Heq as Heq.
  apply app_delimiter_inj in Heq as [Hb Heq];
    [| apply free_of_pretty_Z; [apply paren_not_digit | done] .. ].
  apply (inj pretty) in Ha, Hb. by subst.
Qed.

Lemma OutOfBoundsError_init_inj (shape position shape' position' : Z * Z) :
  OutOfBoundsError_init shape position = OutOfBoundsError_init shape' position' →
  shape = shape' ∧ position = position'.
Proof.
  unfold OutOfBoundsError_init. intros Heq.
  apply (f_equal (λ e, match e with OutOfBoundsError m => m | _ => "" end))
    in Heq.
  apply (inj (String.append _)) in Heq.
  apply repr_tuple_inj in Heq as [Hp Heq].
  apply (inj (String.append _)) in Heq.
  rewrite <- (string_app_nil_r (repr_tuple shape)) in Heq.
  rewrite <- (string_app_nil_r (repr_tuple shape')) in Heq.
  by apply repr_tuple_inj in Heq as [Hs _].
Qed.

(** ** Bounds rejection *)

(** C2: for every shape and every position outside of it, each of the four
    constructors raises the [OutOfBoundsError] built from exactly that shape
    and that position, and the store is the one it was called on: nothing
    was allocated.  The message of the exception determines both the shape
    and the position. *)
Theorem out_of_bounds_rejected (R C row col : Z) (value : complex) (h : heap) :
  row < 0 ∨ R ≤ row ∨ col < 0 ∨ C ≤ col →
  one_element_dense (R, C) (row, col) value h
    = (Raise (OutOfBoundsError_init (R, C) (row, col)), h) ∧
  one_element_coo (R, C) (row, col) value h
    = (Raise (OutOfBoundsError_init (R, C) (row, col)), h) ∧
  one_element_csr (R, C) (row, col) value h
    = (Raise (OutOfBoundsError_init (R, C) (row, col)), h) ∧
  one_element_dia (R, C) (row, col) value h
    = (Raise (OutOfBoundsError_init (R, C) (row, col)), h) ∧
  (∀ shape' position',
     OutOfBoundsError_init shape' position'
       = OutOfBoundsError_init (R, C) (row, col) →
     shape' = (R, C) ∧ position' = (row, col)).
Proof.
  intros Hout.
  assert (Hn : ¬ (0 ≤ row < R ∧ 0 ≤ col < C)) by lia.
  split_and!.
  - by apply one_element_dense_raise.
  - by apply one_element_coo_raise.
  - by apply one_element_csr_raise.
  - by apply one_element_dia_raise.
  - intros shape' position'. apply OutOfBoundsError_init_inj.
Qed.

Lemma out_of_bounds_rejected_witness :
  (2 < 0 ∨ 2 ≤ 2 ∨ 0 < 0 ∨ 2 ≤ 0) ∧
  one_element_dense (2, 2) (2, 0) default_value sample_heap
    = (Raise (OutOfBoundsError
                "Position of the elements out of bound: (2, 0) in (2, 2)"),
       sample_heap).
Proof.
  split; [lia|].
  apply (out_of_bounds_rejected 2 2 2 0 default_value sample_heap). lia.
Defined.

(** C10: when a dimension of the shape is not positive the bounds test
    cannot hold, so each of the four constructors raises [OutOfBoundsError]
    for every position, on an unchanged store. *)
Theorem nonpositive_shape_rejected (R C row col : Z) (value : complex)
  (h : heap) :
  R ≤ 0 ∨ C ≤ 0 →
  one_element_dense (R, C) (row, col) value h
    = (Raise (OutOfBoundsError_init (R, C) (row, col)), h) ∧
  one_element_coo (R, C) (row, col) value h
    = (Raise (OutOfBoundsError_init (R, C) (row, col)), h) ∧
  one_element_csr (R, C) (row, col) value h
    = (Raise (OutOfBoundsError_init (R, C) (row, col)), h) ∧
  one_element_dia (R, C) (row, col) value h
    = (Raise (OutOfBoundsError_init (R, C) (row, col)), h) ∧
  ¬ (0 ≤ row < R ∧ 0 ≤ col < C).
Proof.
  intros Hshape.
  assert (Hn : ¬ (0 ≤ row < R ∧ 0 ≤ col < C)) by lia.
  split_and!; [| | | | done].
  - by apply one_element_dense_raise.
  - by apply one_element_coo_raise.
  - by apply one_element_csr_raise.
  - by apply one_element_dia_raise.
Qed.

Lemma nonpositive_shape_rejected_witness :
  (0 ≤ 0 ∨ 3 ≤ 0) ∧
  one_element_csr (0, 3) (0, 1) default_value sample_heap
    = (Raise (OutOfBoundsError
                "Position of the elements out of bound: (0, 1) in (0, 3)"),
       sample_heap).
Proof.
  split; [lia|].
  apply (nonpositive_shape_rejected 0 3 0 1 default_value sample_heap). lia.
Defined.

(** ** Coordinate constructor *)

(** C6: on a position inside the shape [one_element_coo] returns three
    arrays of length one holding [value], [row] and [col].  Each of the
    three buffers is new: it is not a buffer of the store the call started
    from, the two index buffers differ, and every buffer of that store is
    still there with its contents. *)
Theorem coo_triplet_fresh (R C row col : Z) (value : complex) (h : heap) :
  0 ≤ row < R → 0 ≤ col < C →
  ∃ m h',
    one_element_coo (R, C) (row, col) value h = (Ok m, h') ∧
    coo_shape m = (R, C) ∧
    ndc_shape (coo_data m) = [1%nat] ∧
    ndi_shape (coo_row m) = [1%nat] ∧
    ndi_shape (coo_col m) = [1%nat] ∧
    cmem h' !! ndc_base (coo_data m) = Some [value] ∧
    imem h' !! ndi_base (coo_row m) = Some [row] ∧
    imem h' !! ndi_base (coo_col m) = Some [col] ∧
    cmem h !! ndc_base (coo_data m) = None ∧
    imem h !! ndi_base (coo_row m) = None ∧
    imem h !! ndi_base (coo_col m) = None ∧
    ndi_base (coo_row m) ≠ ndi_base (coo_col m) ∧
    (∀ l xs, cmem h !! l = Some xs → cmem h' !! l = Some xs) ∧
    (∀ l xs, imem h !! l = Some xs → imem h' !! l = Some xs).
Proof.
  intros Hr Hc. eexists _, _. split; [by apply one_element_coo_run|].
  simpl. split_and!.
  - done.
  - done.
  - done.
  - done.
  - apply lookup_snoc.
  - apply lookup_snoc_old, lookup_snoc.
  - replace (S (length (imem h))) with (length (imem h ++ [[row]]))
      by (rewrite length_app; simpl; lia).
    apply lookup_snoc.
  - apply lookup_fresh.
  - apply lookup_fresh.
  - apply lookup_ge_None. lia.
  - lia.
  - intros l xs. apply lookup_snoc_old.
  - intros l xs Hl. by apply lookup_snoc_old, lookup_snoc_old.
Qed.

Lemma coo_triplet_fresh_witness :
  (0 ≤ 0 < 2 ∧ 0 ≤ 1 < 2) ∧
  ∃ m h',
    one_element_coo (2, 2) (0, 1) default_value sample_heap = (Ok m, h') ∧
    cmem h' !! ndc_base (coo_data m) = Some [default_value] ∧
    imem h' !! ndi_base (coo_row m) = Some [0] ∧
    imem h' !! ndi_base (coo_col m) = Some [1].
Proof.
  split; [lia|].
  destruct (coo_triplet_fresh 2 2 0 1 default_value sample_heap)
    as (m & h' & Hrun & _ & _ & _ & _ & Hv & Hrow & Hcol & _); [lia..|].
  by exists m, h'.
Defined.

(** ** Dispatch default *)

(** C7: with no representation asked for, a dispatcher calls the
    specialisation that was registered first, whatever the function given
    when the dispatcher was made; for [one_element] that is
    [one_element_coo], so the call does what asking for the coordinate
    representation does, on every shape, position and value. *)
Theorem one_element_default_first_registered (shape position : Z * Z)
  (value : complex) (h : heap) :
  (∀ (d : Dispatcher ((Z * Z) * (Z * Z) * complex) Data) r f rest args,
     disp_specialisations d = (r, f) :: rest →
     dispatch d args None h = f args h) ∧
  dispatch one_element (shape, position, value) None h
  = (DCOO <$> one_element_coo shape position value) h ∧
  dispatch one_element (shape, position, value) None h
  = dispatch one_element (shape, position, value) (Some RCOO) h.
Proof.
  split_and!.
  - intros d r f rest args Hspecs. unfold dispatch. by rewrite Hspecs.
  - done.
  - done.
Qed.

(** The call with no representation does not return what
    [one_element_dense] returns: on shape [(2, 2)], position [(0, 1)] it
    returns a coordinate matrix. *)
Lemma one_element_default_not_dense :
  ∃ m h',
    dispatch one_element ((2, 2), (0, 1), cone) None sample_heap
    = (Ok (DCOO m), h') ∧
    (DDense <$> one_element_dense (2, 2) (0, 1) cone) sample_heap
    ≠ (Ok (DCOO m), h').
Proof.
  eexists _, _. split; [reflexivity|].
  vm_compute. discriminate.
Qed.

(** ** Buffers of one non-zero cell *)

Lemma lookup_insert_replicate {A} (n k k' : nat) (v z : A) :
  (k < n)%nat → (k' < n)%nat →
  <[k:=v]> (replicate n z) !! k'
  = Some (if bool_decide (k' = k) then v else z).
Proof.
  intros Hk Hk'. case_bool_decide as Heq.
  - subst. apply list_lookup_insert_eq. by rewrite length_replicate.
  - rewrite list_lookup_insert_ne by done. by apply lookup_replicate_2.
Qed.

(** The row pointers written by [one_element_csr]. *)
Lemma row_pointers_lookup (R row : Z) (k : nat) :
  0 ≤ row < R → (k ≤ Z.to_nat R)%nat →
  (replicate (Z.to_nat (row + 1)) 0
     ++ replicate (Z.to_nat (R + 1) - Z.to_nat (row + 1)) 1) !! k
  = Some (if bool_decide (Z.of_nat k ≤ row) then 0 else 1).
Proof.
  intros Hr Hk. case_bool_decide as Hle.
  - rewrite lookup_app_l by (rewrite length_replicate; lia).
    apply lookup_replicate_2. lia.
  - rewrite lookup_app_r by (rewrite length_replicate; lia).
    rewrite length_replicate. apply lookup_replicate_2. lia.
Qed.

Lemma row_pointers_length (R row : Z) :
  0 ≤ row < R →
  length (replicate (Z.to_nat (row + 1)) 0
            ++ replicate (Z.to_nat (R + 1) - Z.to_nat (row + 1)) 1)
  = Z.to_nat (R + 1).
Proof. intros Hr. rewrite length_app, !length_replicate. lia. Qed.

(** Row-major offsets of a shape with [C] columns. *)
Lemma row_major_offset (C i j : Z) :
  0 ≤ i → 0 ≤ j → 0 ≤ C →
  Z.to_nat (i * C + j) = (Z.to_nat i * Z.to_nat C + Z.to_nat j)%nat.
Proof. intros. rewrite Z2Nat.inj_add, Z2Nat.inj_mul by lia. done. Qed.

Lemma row_major_in_range (R C i j : Z) :
  0 ≤ i < R → 0 ≤ j < C → 0 ≤ i * C + j < R * C.
Proof. intros. nia. Qed.

Lemma row_major_inj (C i j i' j' : Z) :
  0 ≤ j < C → 0 ≤ j' < C →
  i * C + j = i' * C + j' → i = i' ∧ j = j'.
Proof.
  intros Hj Hj' Heq.
  destruct (Z.lt_trichotomy i i') as [Hlt|[->|Hgt]].
  - assert ((i + 1) * C ≤ i' * C) by (apply Z.mul_le_mono_nonneg_r; lia). lia.
  - lia.
  - assert ((i' + 1) * C ≤ i * C) by (apply Z.mul_le_mono_nonneg_r; lia). lia.
Qed.

(** ** Compressed-row constructor *)

(** C3: on a position inside the shape [one_element_csr] leaves
    [values = [value]], [column_indices = [col]] and a row-pointer array [p]
    of length [R + 1] with [p[i] = 0] for [i <= row] and [p[i] = 1] for
    [i > row]; so [p] is non-decreasing, [p[0] = 0], [p[R] = 1], and
    [p[i] != p[i+1]] exactly when [i = row]. *)
Theorem csr_row_pointers (R C row col : Z) (value : complex) (h : heap) :
  0 ≤ row < R → 0 ≤ col < C →
  ∃ m h' p,
    one_element_csr (R, C) (row, col) value h = (Ok m, h') ∧
    cmem h' !! csr_data m = Some [value] ∧
    imem h' !! csr_col_index m = Some [col] ∧
    imem h' !! csr_row_index m = Some p ∧
    length p = Z.to_nat (R + 1) ∧
    (∀ i, 0 ≤ i ≤ row → p !! Z.to_nat i = Some 0) ∧
    (∀ i, row < i ≤ R → p !! Z.to_nat i = Some 1) ∧
    (∀ (i j : nat) a b,
       (i ≤ j)%nat → p !! i = Some a → p !! j = Some b → a ≤ b) ∧
    p !! 0%nat = Some 0 ∧
    p !! Z.to_nat R = Some 1 ∧
    (∀ i a b, 0 ≤ i < R →
       p !! Z.to_nat i = Some a → p !! Z.to_nat (i + 1) = Some b →
       a ≠ b ↔ i = row).
Proof.
  intros Hr Hc. eexists _, _, _.
  split; [by apply one_element_csr_run|]. simpl.
  assert (Hp : ∀ k : nat, (k ≤ Z.to_nat R)%nat → _ !! k = Some _)
    by (intros k; apply (row_pointers_lookup R row k Hr)).
  split_and!.
  - apply lookup_snoc.
  - apply lookup_snoc_old, lookup_snoc.
  - replace (S (length (imem h))) with (length (imem h ++ [[col]]))
      by (rewrite length_app; simpl; lia).
    apply lookup_snoc.
  - by apply row_pointers_length.
  - intros i Hi. rewrite Hp by lia. by rewrite bool_decide_true by lia.
  - intros i Hi. rewrite Hp by lia. by rewrite bool_decide_false by lia.
  - intros i j a b Hij Ha Hb.
    assert (j < Z.to_nat (R + 1))%nat.
    { rewrite <- (row_pointers_length R row Hr). by eapply lookup_lt_Some. }
    rewrite Hp in Ha, Hb by lia.
    repeat case_bool_decide; simplify_eq; lia.
  - rewrite Hp by lia. by rewrite bool_decide_true by lia.
  - rewrite Hp by lia. by rewrite bool_decide_false by lia.
  - intros i a b Hi Ha Hb. rewrite Hp in Ha, Hb by lia.
    repeat case_bool_decide; simplify_eq; lia.
Qed.

Lemma csr_row_pointers_witness :
  (0 ≤ 2 < 4 ∧ 0 ≤ 3 < 4) ∧
  ∃ m h' p,
    one_element_csr (4, 4) (2, 3) default_value sample_heap = (Ok m, h') ∧
    cmem h' !! csr_data m = Some [default_value] ∧
    imem h' !! csr_col_index m = Some [3] ∧
    imem h' !! csr_row_index m = Some p ∧
    length p = 5%nat.
Proof.
  split; [lia|].
  destruct (csr_row_pointers 4 4 2 3 default_value sample_heap)
    as (m & h' & p & Hrun & Hv & Hc & Hp & Hlen & _); [lia..|].
  by exists m, h', p.
Defined.

(** ** Dense constructor *)

(** C4: on a position inside the shape [one_element_dense] returns a buffer
    of [R*C] scalars in column-major order, the order asked of [dense.zeros]
    by its third argument: the cell of [(i, j)] is at offset [j*R + i], it
    holds [value] when [(i, j)] is the position and zero otherwise, and
    every cell of the buffer is zero but the one at offset [col*R + row]. *)
Theorem dense_column_major_buffer (R C row col : Z) (value : complex)
  (h : heap) :
  0 ≤ row < R → 0 ≤ col < C →
  ∃ m h' buf,
    one_element_dense (R, C) (row, col) value h = (Ok m, h') ∧
    dense_shape m = (R, C) ∧
    dense_fortran m = true ∧
    cmem h' !! dense_data m = Some buf ∧
    length buf = Z.to_nat (R * C) ∧
    (∀ i j, 0 ≤ i < R → 0 ≤ j < C →
       buf !! Z.to_nat (j * R + i)
       = Some (if bool_decide (i = row ∧ j = col) then value else czero)) ∧
    (∀ k : nat, (k < length buf)%nat →
       buf !! k
       = Some (if bool_decide (k = Z.to_nat (col * R + row))
               then value else czero)).
Proof.
  intros Hr Hc. eexists _, _, _.
  split; [by apply one_element_dense_run|]. simpl.
  pose proof (row_major_in_range C R col row Hc Hr) as Hin.
  assert (Hlen : (Z.to_nat R * Z.to_nat C)%nat = Z.to_nat (R * C))
    by (rewrite Z2Nat.inj_mul; lia).
  rewrite <- row_major_offset, Hlen by lia.
  split_and!.
  - done.
  - done.
  - apply lookup_snoc.
  - by rewrite length_insert, length_replicate.
  - intros i j Hi Hj.
    pose proof (row_major_in_range C R j i Hj Hi).
    rewrite lookup_insert_replicate by lia.
    erewrite bool_decide_ext; [done|]. split.
    + intros Heq.
      destruct (row_major_inj R j i col row) as [-> ->]; [lia..|done].
    + by intros [-> ->].
  - intros k Hk. rewrite length_insert, length_replicate in Hk.
    by rewrite lookup_insert_replicate by lia.
Qed.

Lemma dense_column_major_buffer_witness :
  (0 ≤ 0 < 2 ∧ 0 ≤ 1 < 3) ∧
  ∃ m h' buf,
    one_element_dense (2, 3) (0, 1) (Complex 2%float 0%float) sample_heap
      = (Ok m, h') ∧
    cmem h' !! dense_data m = Some buf ∧
    length buf = 6%nat ∧
    buf !! 2%nat = Some (Complex 2%float 0%float).
Proof.
  split; [lia|].
  destruct (dense_column_major_buffer 2 3 0 1 (Complex 2%float 0%float)
              sample_heap)
    as (m & h' & buf & Hrun & _ & _ & Hbuf & Hlen & Hcell & _); [lia..|].
  exists m, h', buf. split_and!; [done..|].
  by apply (Hcell 0 1).
Defined.

(** The buffer is not row-major: on shape [(2, 3)], position [(0, 1)] the
    row-major offset of the position, [0*3 + 1], holds zero, and the value
    is at offset [2], the row-major place of the cell [(0, 2)]. *)
Lemma dense_not_row_major :
  ∃ m h' buf,
    one_element_dense (2, 3) (0, 1) (Complex 2%float 0%float) sample_heap
      = (Ok m, h') ∧
    cmem h' !! dense_data m = Some buf ∧
    buf = [czero; czero; Complex 2%float 0%float; czero; czero; czero] ∧
    buf !! Z.to_nat (0 * 3 + 1) = Some czero ∧
    buf !! Z.to_nat (0 * 3 + 1) ≠ Some (Complex 2%float 0%float) ∧
    buf !! Z.to_nat (0 * 3 + 2) = Some (Complex 2%float 0%float).
Proof.
  exists (MkDense (2, 3) true 0%nat),
    (Heap [[czero; czero; Complex 2%float 0%float; czero; czero; czero]] []
       (junk_c sample_heap) (junk_i sample_heap)),
    [czero; czero; Complex 2%float 0%float; czero; czero; czero].
  split_and!; [reflexivity..|discriminate|reflexivity].
Qed.

(** ** Diagonal-offset constructor *)

(** C5: on a position inside the shape [one_element_dia] returns the
    offsets array [[col - row]], an offset between [-R] and [C], and a
    buffer of shape [(1, C)] that holds [value] at column [col] and zero in
    every other column. *)
Theorem dia_offset_and_buffer (R C row col : Z) (value : complex)
  (h : heap) :
  0 ≤ row < R → 0 ≤ col < C →
  ∃ m h' d,
    one_element_dia (R, C) (row, col) value h = (Ok m, h') ∧
    dia_shape m = (R, C) ∧
    ndi_shape (dia_offsets m) = [1%nat] ∧
    imem h' !! ndi_base (dia_offsets m) = Some [col - row] ∧
    - R < col - row < C ∧
    ndc_shape (dia_data m) = [1%nat; Z.to_nat C] ∧
    cmem h' !! ndc_base (dia_data m) = Some d ∧
    length d = Z.to_nat C ∧
    (∀ j, 0 ≤ j < C →
       d !! Z.to_nat j
       = Some (if bool_decide (j = col) then value else czero)).
Proof.
  intros Hr Hc. eexists _, _, _.
  split; [by apply one_element_dia_run|]. simpl.
  split_and!.
  - done.
  - done.
  - apply lookup_snoc.
  - lia.
  - lia.
  - done.
  - apply lookup_snoc.
  - by rewrite length_insert, length_replicate.
  - intros j Hj. rewrite lookup_insert_replicate by lia.
    erewrite bool_decide_ext; [done|]. lia.
Qed.

Lemma dia_offset_and_buffer_witness :
  (0 ≤ 0 < 3 ∧ 0 ≤ 2 < 3) ∧
  ∃ m h' d,
    one_element_dia (3, 3) (0, 2) default_value sample_heap = (Ok m, h') ∧
    imem h' !! ndi_base (dia_offsets m) = Some [2] ∧
    cmem h' !! ndc_base (dia_data m) = Some d ∧
    d !! 2%nat = Some default_value.
Proof.
  split; [lia|].
  destruct (dia_offset_and_buffer 3 3 0 2 default_value sample_heap)
    as (m & h' & d & Hrun & _ & _ & Hoff & _ & _ & Hd & _ & Hcell);
    [lia..|].
  exists m, h', d. split_and!; [done..|].
  by apply (Hcell 2).
Defined.

(** ** One stored entry, whatever the value *)

(** C9: on a position inside the shape each sparse constructor stores one
    entry, for every value: the three arrays of [one_element_coo] have
    length one, [one_element_csr] reserves one slot and ends its row
    pointers with [p[R] = 1], and [one_element_dia] stores one diagonal and
    one offset.  The object returned and the index memory are those
    obtained for the value zero. *)
Theorem one_stored_entry (R C row col : Z) (value : complex) (h : heap) :
  0 ≤ row < R → 0 ≤ col < C →
  (∃ m h' vs rs cs,
     one_element_coo (R, C) (row, col) value h = (Ok m, h') ∧
     cmem h' !! ndc_base (coo_data m) = Some vs ∧
     imem h' !! ndi_base (coo_row m) = Some rs ∧
     imem h' !! ndi_base (coo_col m) = Some cs ∧
     length vs = 1%nat ∧ length rs = 1%nat ∧ length cs = 1%nat ∧
     ∃ h0, one_element_coo (R, C) (row, col) czero h = (Ok m, h0) ∧
           imem h0 = imem h') ∧
  (∃ m h' vs cs p,
     one_element_csr (R, C) (row, col) value h = (Ok m, h') ∧
     csr_size m = 1%nat ∧
     cmem h' !! csr_data m = Some vs ∧
     imem h' !! csr_col_index m = Some cs ∧
     imem h' !! csr_row_index m = Some p ∧
     length vs = 1%nat ∧ length cs = 1%nat ∧
     p !! Z.to_nat R = Some 1 ∧
     ∃ h0, one_element_csr (R, C) (row, col) czero h = (Ok m, h0) ∧
           imem h0 = imem h') ∧
  (∃ m h' d offs,
     one_element_dia (R, C) (row, col) value h = (Ok m, h') ∧
     ndc_shape (dia_data m) = [1%nat; Z.to_nat C] ∧
     cmem h' !! ndc_base (dia_data m) = Some d ∧
     imem h' !! ndi_base (dia_offsets m) = Some offs ∧
     length d = (1 * Z.to_nat C)%nat ∧ length offs = 1%nat ∧
     ∃ h0, one_element_dia (R, C) (row, col) czero h = (Ok m, h0) ∧
           imem h0 = imem h').
Proof.
  intros Hr Hc. split_and!.
  - eexists _, _, _, _, _.
    split; [by apply one_element_coo_run|]. simpl. split_and!.
    + apply lookup_snoc.
    + apply lookup_snoc_old, lookup_snoc.
    + replace (S (length (imem h))) with (length (imem h ++ [[row]]))
        by (rewrite length_app; simpl; lia).
      apply lookup_snoc.
    + done.
    + done.
    + done.
    + eexists. split; [by apply one_element_coo_run|]. done.
  - eexists _, _, _, _, _.
    split; [by apply one_element_csr_run|]. simpl. split_and!.
    + done.
    + apply lookup_snoc.
    + apply lookup_snoc_old, lookup_snoc.
    + replace (S (length (imem h))) with (length (imem h ++ [[col]]))
        by (rewrite length_app; simpl; lia).
      apply lookup_snoc.
    + done.
    + done.
    + rewrite row_pointers_lookup by lia.
      by rewrite bool_decide_false by lia.
    + eexists. split; [by apply one_element_csr_run|]. done.
  - eexists _, _, _, _.
    split; [by apply one_element_dia_run|]. simpl. split_and!.
    + done.
    + apply lookup_snoc.
    + apply lookup_snoc.
    + rewrite length_insert, length_replicate. lia.
    + done.
    + eexists. split; [by apply one_element_dia_run|]. done.
Qed.

Lemma one_stored_entry_witness :
  (0 ≤ 2 < 4 ∧ 0 ≤ 3 < 4) ∧
  ∃ m h' p,
    one_element_csr (4, 4) (2, 3) czero sample_heap = (Ok m, h') ∧
    csr_size m = 1%nat ∧
    imem h' !! csr_row_index m = Some p ∧
    p !! 4%nat = Some 1.
Proof.
  split; [lia|].
  destruct (one_stored_entry 4 4 2 3 czero sample_heap)
    as (_ & (m & h' & vs & cs & p & Hrun & Hsize & _ & _ & Hp & _ & _
             & Hlast & _) & _); [lia..|].
  by exists m, h', p.
Defined.

(** ** Reading the matrix back *)

Section reading.
Variables (R C row col : Z) (value : complex) (h : heap).
Hypotheses (Hr : 0 ≤ row < R) (Hc : 0 ≤ col < C).
Variables (i j : Z).
Hypotheses (Hi : 0 ≤ i < R) (Hj : 0 ≤ j < C).

Let cell : complex :=
  if bool_decide (i = row ∧ j = col) then value else czero.

Lemma Dense_read_one_element m h' :
  one_element_dense (R, C) (row, col) value h = (Ok m, h') →
  Dense_read h' m i j = Some cell.
Proof using Hr Hc Hi Hj.
  rewrite one_element_dense_run by done. intros [= <- <-].
  unfold Dense_read. simpl.
  rewrite option_guard_True by done. simpl.
  rewrite lookup_snoc. simpl.
  pose proof (row_major_in_range C R j i Hj Hi).
  pose proof (row_major_in_range C R col row Hc Hr).
  rewrite <- !row_major_offset by lia.
  rewrite lookup_insert_replicate.
  - unfold cell. erewrite bool_decide_ext; [done|]. split.
    + intros Heq.
      destruct (row_major_inj R j i col row) as [-> ->]; [lia..|done].
    + by intros [-> ->].
  - rewrite <- Z2Nat.inj_mul by lia. lia.
  - rewrite <- Z2Nat.inj_mul by lia. lia.
Qed.

Lemma COO_read_one_element m h' :
  one_element_coo (R, C) (row, col) value h = (Ok m, h') →
  COO_read h' m i j = Some cell.
Proof using Hr Hc Hi Hj.
  rewrite one_element_coo_run by done. intros [= <- <-].
  unfold COO_read. simpl.
  rewrite option_guard_True by done. simpl.
  rewrite lookup_snoc. simpl.
  rewrite (lookup_snoc_old (imem h ++ [[row]]) [col] (length (imem h)) [row])
    by apply lookup_snoc.
  simpl.
  replace (S (length (imem h))) with (length (imem h ++ [[row]]))
    by (rewrite length_app; simpl; lia).
  rewrite lookup_snoc. simpl.
  unfold cell. f_equal.
  rewrite (bool_decide_ext (row = i ∧ col = j) (i = row ∧ j = col))
    by lia.
  by destruct (bool_decide _).
Qed.

Lemma CSR_read_one_element m h' :
  one_element_csr (R, C) (row, col) value h = (Ok m, h') →
  CSR_read h' m i j = Some cell.
Proof using Hr Hc Hi Hj.
  rewrite one_element_csr_run by done. intros [= <- <-].
  unfold CSR_read. simpl.
  rewrite option_guard_True by done. simpl.
  rewrite lookup_snoc. simpl.
  rewrite (lookup_snoc_old (imem h ++ [[col]]) _ (length (imem h)) [col])
    by apply lookup_snoc.
  simpl.
  replace (S (length (imem h))) with (length (imem h ++ [[col]]))
    by (rewrite length_app; simpl; lia).
  rewrite lookup_snoc. simpl.
  rewrite row_pointers_lookup by lia. simpl.
  rewrite row_pointers_lookup by lia. simpl.
  rewrite !Z2Nat.id by lia.
  unfold cell.
  destruct (decide (i = row)) as [->|Hne].
  - rewrite (bool_decide_false (row + 1 ≤ row)) by lia.
    rewrite (bool_decide_true (row ≤ row)) by lia. simpl.
    rewrite (bool_decide_ext (col = j) (row = row ∧ j = col)) by lia.
    by destruct (bool_decide _).
  - rewrite (bool_decide_false (i = row ∧ j = col)) by lia.
    destruct (decide (i < row)).
    + rewrite (bool_decide_true (i + 1 ≤ row)) by lia.
      by rewrite (bool_decide_true (i ≤ row)) by lia.
    + rewrite (bool_decide_false (i + 1 ≤ row)) by lia.
      by rewrite (bool_decide_false (i ≤ row)) by lia.
Qed.

Lemma Dia_read_one_element m h' :
  one_element_dia (R, C) (row, col) value h = (Ok m, h') →
  Dia_read h' m i j = Some cell.
Proof using Hr Hc Hi Hj.
  rewrite one_element_dia_run by done. intros [= <- <-].
  unfold Dia_read. simpl.
  rewrite option_guard_True by done. simpl.
  rewrite !lookup_snoc. simpl.
  unfold cell. case_decide as Hoff.
  - rewrite lookup_insert_replicate by lia. simpl.
    erewrite bool_decide_ext; [done|]. lia.
  - simpl. by rewrite bool_decide_false by lia.
Qed.

End reading.

(** C1: on a position inside the shape the four constructors encode the same
    matrix: read from what each of them returns, the entry at the position
    is [value] and the entry at every other position of the shape is zero. *)
Theorem one_element_same_matrix (R C row col : Z) (value : complex)
  (h : heap) :
  0 ≤ row < R → 0 ≤ col < C →
  let cell (i j : Z) :=
    if bool_decide (i = row ∧ j = col) then value else czero in
  (∃ m h',
     one_element_dense (R, C) (row, col) value h = (Ok m, h') ∧
     ∀ i j, 0 ≤ i < R → 0 ≤ j < C →
       Dense_read h' m i j = Some (cell i j)) ∧
  (∃ m h',
     one_element_coo (R, C) (row, col) value h = (Ok m, h') ∧
     ∀ i j, 0 ≤ i < R → 0 ≤ j < C →
       COO_read h' m i j = Some (cell i j)) ∧
  (∃ m h',
     one_element_csr (R, C) (row, col) value h = (Ok m, h') ∧
     ∀ i j, 0 ≤ i < R → 0 ≤ j < C →
       CSR_read h' m i j = Some (cell i j)) ∧
  (∃ m h',
     one_element_dia (R, C) (row, col) value h = (Ok m, h') ∧
     ∀ i j, 0 ≤ i < R → 0 ≤ j < C →
       Dia_read h' m i j = Some (cell i j)).
Proof.
  intros Hr Hc cell. split_and!.
  - eexists _, _. split; [by apply one_element_dense_run|].
    intros i j Hi Hj. eapply Dense_read_one_element; try done.
    by apply one_element_dense_run.
  - eexists _, _. split; [by apply one_element_coo_run|].
    intros i j Hi Hj. eapply COO_read_one_element; try done.
    by apply one_element_coo_run.
  - eexists _, _. split; [by apply one_element_csr_run|].
    intros i j Hi Hj. eapply CSR_read_one_element; try done.
    by apply one_element_csr_run.
  - eexists _, _. split; [by apply one_element_dia_run|].
    intros i j Hi Hj. eapply Dia_read_one_element; try done.
    by apply one_element_dia_run.
Qed.

Lemma one_element_same_matrix_witness :
  (0 ≤ 1 < 2 ∧ 0 ≤ 2 < 3) ∧
  ∃ m h',
    one_element_dia (2, 3) (1, 2) default_value sample_heap = (Ok m, h') ∧
    Dia_read h' m 1 2 = Some default_value ∧
    Dia_read h' m 0 1 = Some czero.
Proof.
  split; [lia|].
  destruct (one_element_same_matrix 2 3 1 2 default_value sample_heap)
    as (_ & _ & _ & m & h' & Hrun & Hread); [lia..|].
  exists m, h'. split_and!; [done| |].
  - by apply (Hread 1 2).
  - by apply (Hread 0 1).
Defined.

(** ** The scenarios of the specification, run *)

Example scenario_dense :
  one_element_dense (3, 3) (1, 1) (Complex 2%float 0%float) sample_heap
  = (Ok (MkDense (3, 3) true 0%nat),
     Heap [[czero; czero; czero;
            czero; Complex 2%float 0%float; czero;
            czero; czero; czero]] []
       (junk_c sample_heap) (junk_i sample_heap)).
Proof. reflexivity. Qed.

Example scenario_coo :
  one_element_coo (2, 2) (0, 1) cone sample_heap
  = (Ok (MkCOO (2, 2) (NdC 0%nat [1%nat]) (NdI 0%nat [1%nat])
           (NdI 1%nat [1%nat])),
     Heap [[cone]] [[0]; [1]] (junk_c sample_heap) (junk_i sample_heap)).
Proof. reflexivity. Qed.

Example scenario_csr :
  one_element_csr (4, 4) (2, 3) default_value sample_heap
  = (Ok (MkCSR (4, 4) 1 0%nat 0%nat 1%nat),
     Heap [[cone]] [[3]; [0; 0; 0; 1; 1]]
       (junk_c sample_heap) (junk_i sample_heap)).
Proof. reflexivity. Qed.

Example scenario_csr_first_row :
  (one_element_csr (3, 2) (0, 1) default_value sample_heap).2
  = Heap [[cone]] [[1]; [0; 1; 1; 1]]
      (junk_c sample_heap) (junk_i sample_heap).
Proof. reflexivity. Qed.

Example scenario_csr_last_row :
  (one_element_csr (3, 2) (2, 0) default_value sample_heap).2
  = Heap [[cone]] [[0]; [0; 0; 0; 1]]
      (junk_c sample_heap) (junk_i sample_heap).
Proof. reflexivity. Qed.

Example scenario_dia :
  one_element_dia (3, 3) (0, 2) default_value sample_heap
  = (Ok (MkDia (3, 3) (NdC 0%nat [1%nat; 3%nat]) (NdI 0%nat [1%nat])),
     Heap [[czero; czero; cone]] [[2]]
       (junk_c sample_heap) (junk_i sample_heap)).
Proof. reflexivity. Qed.

Example scenario_dia_below :
  (one_element_dia (3, 2) (2, 0) default_value sample_heap).2
  = Heap [[cone; czero]] [[-2]]
      (junk_c sample_heap) (junk_i sample_heap).
Proof. reflexivity. Qed.

Example scenario_out_of_bounds :
  one_element_dense (2, 2) (2, 0) default_value sample_heap
  = (Raise (OutOfBoundsError
              "Position of the elements out of bound: (2, 0) in (2, 2)"),
     sample_heap).
Proof. reflexivity. Qed.

Example scenario_negative_position :
  one_element_coo (2, 2) (-1, 0) default_value sample_heap
  = (Raise (OutOfBoundsError
              "Position of the elements out of bound: (-1, 0) in (2, 2)"),
     sample_heap).
Proof. reflexivity. Qed.

Example scenario_dense_column_major :
  (one_element_dense (2, 3) (1, 0) cone sample_heap).2
  = Heap [[czero; cone; czero; czero; czero; czero]] []
      (junk_c sample_heap) (junk_i sample_heap).
Proof. reflexivity. Qed.

Example scenario_no_representation :
  dispatch one_element ((2, 2), (0, 1), cone) None sample_heap
  = (Ok (DCOO (MkCOO (2, 2) (NdC 0%nat [1%nat]) (NdI 0%nat [1%nat])
                 (NdI 1%nat [1%nat]))),
     Heap [[cone]] [[0]; [1]] (junk_c sample_heap) (junk_i sample_heap)).
Proof. reflexivity. Qed.

(** * Further properties of the constructors *)

(** ** No buffer of the caller is touched *)

Lemma heap_extends_refl (h : heap) : heap_extends h h.
Proof. by split. Qed.

Lemma heap_extends_trans (h1 h2 h3 : heap) :
  heap_extends h1 h2 → heap_extends h2 h3 → heap_extends h1 h3.
Proof. intros [Hc Hi] [Hc' Hi']. split; eauto. Qed.

Section frame.
Variables (R C row col : Z) (value : complex) (h : heap).

Lemma one_element_coo_extends :
  heap_extends h (one_element_coo (R, C) (row, col) value h).2.
Proof.
  destruct (decide (0 ≤ row < R ∧ 0 ≤ col < C)) as [[Hr Hc]|Hout].
  - rewrite one_element_coo_run by done. split; simpl.
    + intros l xs. apply lookup_snoc_old.
    + intros l xs Hl. by apply lookup_snoc_old, lookup_snoc_old.
  - rewrite one_element_coo_raise by done. apply heap_extends_refl.
Qed.

Lemma one_element_csr_extends :
  heap_extends h (one_element_csr (R, C) (row, col) value h).2.
Proof.
  destruct (decide (0 ≤ row < R ∧ 0 ≤ col < C)) as [[Hr Hc]|Hout].
  - rewrite one_element_csr_run by done. split; simpl.
    + intros l xs. apply lookup_snoc_old.
    + intros l xs Hl. by apply lookup_snoc_old, lookup_snoc_old.
  - rewrite one_element_csr_raise by done. apply heap_extends_refl.
Qed.

Lemma one_element_dense_extends :
  heap_extends h (one_element_dense (R, C) (row, col) value h).2.
Proof.
  destruct (decide (0 ≤ row < R ∧ 0 ≤ col < C)) as [[Hr Hc]|Hout].
  - rewrite one_element_dense_run by done. split; simpl.
    + intros l xs. apply lookup_snoc_old.
    + done.
  - rewrite one_element_dense_raise by done. apply heap_extends_refl.
Qed.

Lemma one_element_dia_extends :
  heap_extends h (one_element_dia (R, C) (row, col) value h).2.
Proof.
  destruct (decide (0 ≤ row < R ∧ 0 ≤ col < C)) as [[Hr Hc]|Hout].
  - rewrite one_element_dia_run by done. split; simpl.
    + intros l xs. apply lookup_snoc_old.
    + intros l xs. apply lookup_snoc_old.
  - rewrite one_element_dia_raise by done. apply heap_extends_refl.
Qed.

End frame.

(** X1: whatever the shape, the position and the value, inside the shape or
    not, none of the four constructors removes or changes a buffer of the
    store it is called on: every buffer that was there is there afterwards
    with the same contents. *)
Theorem constructors_keep_buffers (R C row col : Z) (value : complex)
  (h : heap) :
  heap_extends h (one_element_coo (R, C) (row, col) value h).2 ∧
  heap_extends h (one_element_csr (R, C) (row, col) value h).2 ∧
  heap_extends h (one_element_dense (R, C) (row, col) value h).2 ∧
  heap_extends h (one_element_dia (R, C) (row, col) value h).2.
Proof.
  split_and!.
  - apply one_element_coo_extends.
  - apply one_element_csr_extends.
  - apply one_element_dense_extends.
  - apply one_element_dia_extends.
Qed.

(** ** New buffers only *)

(** X2: on a position inside the shape, the buffers of what
    [one_element_csr], [one_element_dense] and [one_element_dia] return are
    new: none is a buffer of the store the call started from, and the two
    index buffers of the compressed-row matrix differ. *)
Theorem results_own_their_buffers (R C row col : Z) (value : complex)
  (h : heap) :
  0 ≤ row < R → 0 ≤ col < C →
  (∃ m h',
     one_element_csr (R, C) (row, col) value h = (Ok m, h') ∧
     cmem h !! csr_data m = None ∧
     imem h !! csr_col_index m = None ∧
     imem h !! csr_row_index m = None ∧
     csr_col_index m ≠ csr_row_index m) ∧
  (∃ m h',
     one_element_dense (R, C) (row, col) value h = (Ok m, h') ∧
     cmem h !! dense_data m = None) ∧
  (∃ m h',
     one_element_dia (R, C) (row, col) value h = (Ok m, h') ∧
     cmem h !! ndc_base (dia_data m) = None ∧
     imem h !! ndi_base (dia_offsets m) = None).
Proof.
  intros Hr Hc. split_and!.
  - eexists _, _. split; [by apply one_element_csr_run|]. simpl.
    split_and!.
    + apply lookup_fresh.
    + apply lookup_fresh.
    + apply lookup_ge_None. lia.
    + lia.
  - eexists _, _. split; [by apply one_element_dense_run|]. simpl.
    apply lookup_fresh.
  - eexists _, _. split; [by apply one_element_dia_run|]. simpl.
    split; apply lookup_fresh.
Qed.

Lemma results_own_their_buffers_witness :
  (0 ≤ 1 < 2 ∧ 0 ≤ 0 < 2) ∧
  ∃ m h',
    one_element_dia (2, 2) (1, 0) default_value
      (Heap [[cone]] [[5]] (junk_c sample_heap) (junk_i sample_heap))
    = (Ok m, h') ∧
    ndc_base (dia_data m) = 1%nat ∧ ndi_base (dia_offsets m) = 1%nat.
Proof.
  split; [lia|].
  destruct (results_own_their_buffers 2 2 1 0 default_value
              (Heap [[cone]] [[5]] (junk_c sample_heap) (junk_i sample_heap)))
    as (_ & _ & m & h' & Hrun & _); [lia..|].
  exists m, h'. split; [done|].
  by injection Hrun as <- _.
Defined.

(** ** Uninitialised memory never shows *)

(** X3: what a constructor returns and the buffers it leaves do not depend
    on what uninitialised memory holds: on two stores with the same buffers
    the four constructors return the same outcome and leave the same
    buffers, whatever junk [csr.empty] finds. *)
Theorem junk_never_read (R C row col : Z) (value : complex) (h1 h2 : heap) :
  cmem h1 = cmem h2 → imem h1 = imem h2 →
  let same {A} (r1 r2 : outcome A * heap) :=
    r1.1 = r2.1 ∧ cmem r1.2 = cmem r2.2 ∧ imem r1.2 = imem r2.2 in
  same (one_element_coo (R, C) (row, col) value h1)
       (one_element_coo (R, C) (row, col) value h2) ∧
  same (one_element_csr (R, C) (row, col) value h1)
       (one_element_csr (R, C) (row, col) value h2) ∧
  same (one_element_dense (R, C) (row, col) value h1)
       (one_element_dense (R, C) (row, col) value h2) ∧
  same (one_element_dia (R, C) (row, col) value h1)
       (one_element_dia (R, C) (row, col) value h2).
Proof.
  intros Hc Hi same. unfold same.
  destruct (decide (0 ≤ row < R ∧ 0 ≤ col < C)) as [[Hr Hcol]|Hout].
  - rewrite !one_element_coo_run, !one_element_csr_run,
      !one_element_dense_run, !one_element_dia_run by done.
    simpl. rewrite Hc, Hi. by split_and!.
  - rewrite !one_element_coo_raise, !one_element_csr_raise,
      !one_element_dense_raise, !one_element_dia_raise by done.
    simpl. by split_and!.
Qed.

Lemma junk_never_read_witness :
  (one_element_csr (3, 2) (1, 1) default_value sample_heap).1
  = (one_element_csr (3, 2) (1, 1) default_value
       (Heap [] [] (λ _ _, czero) (λ l k, Z.of_nat (l + k)))).1.
Proof.
  apply (junk_never_read 3 2 1 1 default_value sample_heap
           (Heap [] [] (λ _ _, czero) (λ l k, Z.of_nat (l + k))));
    reflexivity.
Defined.

(** ** Through the dispatcher *)

Lemma fmap_ok {A B} (f : A → B) (m : M A) (h h' : heap) (a : A) :
  m h = (Ok a, h') → (f <$> m) h = (Ok (f a), h').
Proof. intros H. unfold fmap, M_fmap. by rewrite H. Qed.

Lemma fmap_store {A B} (f : A → B) (m : M A) (h : heap) :
  ((f <$> m) h).2 = (m h).2.
Proof. unfold fmap, M_fmap. by destruct (m h) as [[a|e] h']. Qed.

Section read_extends.
Variables (h h' : heap).
Hypothesis Hext : heap_extends h h'.
Variables (i j : Z) (x : complex).

Lemma Dense_read_extends m :
  Dense_read h m i j = Some x → Dense_read h' m i j = Some x.
Proof using Hext.
  destruct Hext as [Hc Hi]. unfold Dense_read. intros H.
  case_guard; simplify_eq/=.
  destruct (cmem h !! dense_data m) as [xs|] eqn:E; simplify_eq/=.
  by rewrite (Hc _ _ E).
Qed.

Lemma COO_read_extends m :
  COO_read h m i j = Some x → COO_read h' m i j = Some x.
Proof using Hext.
  destruct Hext as [Hc Hi]. unfold COO_read. intros H.
  case_guard; simplify_eq/=.
  destruct (cmem h !! _) as [vs|] eqn:E1; simplify_eq/=.
  destruct (imem h !! ndi_base (coo_row m)) as [rs|] eqn:E2; simplify_eq/=.
  destruct (imem h !! ndi_base (coo_col m)) as [cs|] eqn:E3; simplify_eq/=.
  by rewrite (Hc _ _ E1), (Hi _ _ E2), (Hi _ _ E3).
Qed.

Lemma CSR_read_extends m :
  CSR_read h m i j = Some x → CSR_read h' m i j = Some x.
Proof using Hext.
  destruct Hext as [Hc Hi]. unfold CSR_read. intros H.
  case_guard; simplify_eq/=.
  destruct (cmem h !! _) as [vs|] eqn:E1; simplify_eq/=.
  destruct (imem h !! csr_col_index m) as [cs|] eqn:E2; simplify_eq/=.
  destruct (imem h !! csr_row_index m) as [p|] eqn:E3; simplify_eq/=.
  by rewrite (Hc _ _ E1), (Hi _ _ E2), (Hi _ _ E3).
Qed.

Lemma Dia_read_extends m :
  Dia_read h m i j = Some x → Dia_read h' m i j = Some x.
Proof using Hext.
  destruct Hext as [Hc Hi]. unfold Dia_read. intros H.
  case_guard; simplify_eq/=.
  destruct (cmem h !! _) as [d|] eqn:E1; simplify_eq/=.
  destruct (imem h !! _) as [offs|] eqn:E2; simplify_eq/=.
  by rewrite (Hc _ _ E1), (Hi _ _ E2).
Qed.

Lemma Data_read_extends d :
  Data_read h d i j = Some x → Data_read h' d i j = Some x.
Proof using Hext.
  destruct d; simpl.
  - apply COO_read_extends.
  - apply CSR_read_extends.
  - apply Dense_read_extends.
  - apply Dia_read_extends.
Qed.

End read_extends.

Lemma dispatch_one_element_extends
  (args : (Z * Z) * (Z * Z) * complex) (r : option Representation)
  (h : heap) :
  heap_extends h (dispatch one_element args r h).2.
Proof.
  destruct args as [[[R C] [row col]] value].
  destruct r as [[]|]; unfold dispatch; simpl; rewrite fmap_store.
  - apply one_element_coo_extends.
  - apply one_element_csr_extends.
  - apply one_element_dense_extends.
  - apply one_element_dia_extends.
  - apply one_element_coo_extends.
Qed.

Lemma dispatch_one_element_read (r : Representation) (R C row col : Z)
  (value : complex) (h : heap) :
  0 ≤ row < R → 0 ≤ col < C →
  ∃ d h',
    dispatch one_element ((R, C), (row, col), value) (Some r) h = (Ok d, h') ∧
    Data_class d = r ∧
    ∀ i j, 0 ≤ i < R → 0 ≤ j < C →
      Data_read h' d i j
      = Some (if bool_decide (i = row ∧ j = col) then value else czero).
Proof.
  intros Hr Hc. destruct r; unfold dispatch; simpl.
  - eexists _, _. split_and!.
    + apply fmap_ok. by apply one_element_coo_run.
    + done.
    + intros i j Hi Hj. simpl. eapply COO_read_one_element; try done.
      by apply one_element_coo_run.
  - eexists _, _. split_and!.
    + apply fmap_ok. by apply one_element_csr_run.
    + done.
    + intros i j Hi Hj. simpl. eapply CSR_read_one_element; try done.
      by apply one_element_csr_run.
  - eexists _, _. split_and!.
    + apply fmap_ok. by apply one_element_dense_run.
    + done.
    + intros i j Hi Hj. simpl. eapply Dense_read_one_element; try done.
      by apply one_element_dense_run.
  - eexists _, _. split_and!.
    + apply fmap_ok. by apply one_element_dia_run.
    + done.
    + intros i j Hi Hj. simpl. eapply Dia_read_one_element; try done.
      by apply one_element_dia_run.
Qed.

(** X6: each class registered for [one_element] is registered with the
    constructor of that class: asked for a representation on a position
    inside the shape, the dispatcher returns an object of the class asked
    for, and read with the function of that class it is the matrix with
    [value] at the position and zero elsewhere. *)
Theorem dispatch_returns_class_asked (r : Representation) (R C row col : Z)
  (value : complex) (h : heap) :
  0 ≤ row < R → 0 ≤ col < C →
  ∃ d h',
    dispatch one_element ((R, C), (row, col), value) (Some r) h = (Ok d, h') ∧
    Data_class d = r ∧
    ∀ i j, 0 ≤ i < R → 0 ≤ j < C →
      Data_read h' d i j
      = Some (if bool_decide (i = row ∧ j = col) then value else czero).
Proof. apply dispatch_one_element_read. Qed.

Lemma dispatch_returns_class_asked_witness :
  (0 ≤ 1 < 2 ∧ 0 ≤ 2 < 3) ∧
  ∃ d h',
    dispatch one_element ((2, 3), (1, 2), cone) (Some RCSR) sample_heap
    = (Ok d, h') ∧
    Data_class d = RCSR ∧
    Data_read h' d 1 2 = Some cone ∧
    Data_read h' d 1 1 = Some czero.
Proof.
  split; [lia|].
  destruct (dispatch_returns_class_asked RCSR 2 3 1 2 cone sample_heap)
    as (d & h' & Hrun & Hclass & Hread); [lia..|].
  exists d, h'. split_and!; [done..| |].
  - by apply (Hread 1 2).
  - by apply (Hread 1 1).
Defined.

(** ** One call after another *)

(** X7: a matrix built by one call is not disturbed by the next: after a
    second call to the dispatcher, for any representation (or none), shape,
    position and value, accepted or rejected, the first result still reads
    as the matrix with [value] at its position and zero elsewhere. *)
Theorem earlier_matrix_survives (r : Representation)
  (r' : option Representation) (R C row col : Z) (value : complex)
  (args' : (Z * Z) * (Z * Z) * complex) (h : heap) :
  0 ≤ row < R → 0 ≤ col < C →
  ∃ d h1,
    dispatch one_element ((R, C), (row, col), value) (Some r) h = (Ok d, h1) ∧
    ∀ i j, 0 ≤ i < R → 0 ≤ j < C →
      Data_read (dispatch one_element args' r' h1).2 d i j
      = Some (if bool_decide (i = row ∧ j = col) then value else czero).
Proof.
  intros Hr Hc.
  destruct (dispatch_one_element_read r R C row col value h Hr Hc)
    as (d & h1 & Hrun & _ & Hread).
  exists d, h1. split; [done|]. intros i j Hi Hj.
  eapply Data_read_extends; [apply dispatch_one_element_extends|].
  by apply Hread.
Qed.

Lemma earlier_matrix_survives_witness :
  (0 ≤ 0 < 2 ∧ 0 ≤ 1 < 2) ∧
  ∃ d h1,
    dispatch one_element ((2, 2), (0, 1), cone) (Some RDia) sample_heap
    = (Ok d, h1) ∧
    Data_read
      (dispatch one_element ((3, 3), (2, 2), cone) (Some RCSR) h1).2 d 0 1
    = Some cone.
Proof.
  split; [lia|].
  destruct (earlier_matrix_survives RDia (Some RCSR) 2 2 0 1 cone
              ((3, 3), (2, 2), cone) sample_heap)
    as (d & h1 & Hrun & Hread); [lia..|].
  exists d, h1. split; [done|]. by apply (Hread 0 1).
Defined.
